(** * Admission and single-worker queue of the download bot (bot.py)

    A shallow embedding of the stateful core of [bot.py]: the [users]
    table behind [get_user] / [update_user], the message handler
    [handle], and one iteration of the [while True] loop of
    [downloader_loop].

    Python's module-level state (the sqlite table, the deque, the
    download directory) is gathered in one record [world] that is
    threaded explicitly.  Calls that leave the process (Telegram API,
    [subprocess.run], the clock) are answered by values the caller of
    the model supplies, so every definition below can be evaluated.

    Modelling conventions:
    - an [asyncio] task runs without interleaving between two [await]s
      that really suspend.  [handle] suspends only in [is_subscribed]
      and in [reply_text] ([queue_lock] is free whenever it is taken,
      no holder awaits), so its body from [get_user] to [update_user]
      is atomic.  A pass of the worker suspends only in [sleep] and in
      the [bot.send_*] calls, after its one queue operation, and
      [subprocess.run] blocks the whole loop.  Messages and passes are
      therefore modelled as atomic steps;
    - the clock is read through [today]; it does not advance while one
      handler invocation runs;
    - sqlite calls are assumed to complete: storage faults are outside
      the model. *)

From stdpp Require Import gmap strings list fin_maps pretty.
From Stdlib Require Import ZArith Lia.

Local Open Scope Z_scope.

(** ** Data *)

(** A row of [users] without its key: [(daily_count, last_day)]. *)
Abbreviation row := (Z * string)%type.

(** An element of [download_queue]: [(uid, text)]. *)
Abbreviation job := (Z * string)%type.

(** An entry of [DOWNLOAD_DIR]: the name [os.listdir] yields and the
    value [os.path.getctime] returns for it. *)
Record dirent := { d_name : string; d_ctime : Z }.

#[global] Instance dirent_eq_dec : EqDecision dirent.
Proof. solve_decision. Defined.

Record world := {
  users : gmap Z row;          (* table users, keyed by user_id *)
  download_queue : list job;   (* the deque, left end first *)
  downloads : list dirent;     (* content of DOWNLOAD_DIR, in listdir order *)
  utc_day : string             (* datetime.utcnow().strftime("%Y-%m-%d") *)
}.

Definition set_users (f : gmap Z row → gmap Z row) (w : world) : world :=
  {| users := f (users w); download_queue := download_queue w;
     downloads := downloads w; utc_day := utc_day w |}.

Definition set_queue (f : list job → list job) (w : world) : world :=
  {| users := users w; download_queue := f (download_queue w);
     downloads := downloads w; utc_day := utc_day w |}.

Definition set_downloads (f : list dirent → list dirent) (w : world) : world :=
  {| users := users w; download_queue := download_queue w;
     downloads := f (downloads w); utc_day := utc_day w |}.

Definition DAILY_LIMIT : Z := 4.
Definition DOWNLOAD_DIR : string := "downloads".

(** Exceptions that can reach the [except Exception] of the worker. *)
Inductive exn :=
| TimeoutExpired   (* subprocess.run exceeded timeout=600 *)
| OSError          (* the child process could not be started *)
| ValueError       (* max() of an empty sequence *)
| IndexError       (* popleft() of an empty deque *)
| TelegramError.   (* a bot.send_* call failed *)

Inductive res (A : Type) :=
| Ok (a : A)
| Raise (e : exn).
Arguments Ok {A} a.
Arguments Raise {A} e.

(** The three messages [handle] can answer with. *)
Inductive reply :=
| MustSubscribe            (* the user is not a member of the channel *)
| LimitReached             (* the daily limit is used up *)
| Queued (pos : nat).      (* accepted, with the position in the queue *)

(** What the code does to the outside and to its shared state, in the
    order it does it. *)
Inductive event :=
| SqlInsert (uid count : Z) (day : string)   (* INSERT INTO users + commit *)
| SqlUpdate (uid count : Z) (day : string)   (* UPDATE users + commit *)
| Acquire | Release                          (* queue_lock *)
| Append (j : job)                           (* download_queue.append *)
| Popleft (j : job)                          (* download_queue.popleft *)
| ReplyText (r : reply)                      (* update.message.reply_text *)
| Run (cmd : list string)                    (* subprocess.run *)
| SendMessage (uid : Z)                      (* app.bot.send_message, failure text *)
| SendVideo (uid : Z) (path : string)        (* app.bot.send_video *)
| Remove (path : string)                     (* os.remove *)
| LogError (e : exn)                         (* logging.error *)
| Sleep (n : Z).                             (* asyncio.sleep *)

#[global] Instance exn_eq_dec : EqDecision exn.
Proof. solve_decision. Defined.
#[global] Instance reply_eq_dec : EqDecision reply.
Proof. solve_decision. Defined.
#[global] Instance event_eq_dec : EqDecision event.
Proof. solve_decision. Defined.

(** ** A state, trace and exception monad *)

Record outcome (A : Type) := {
  result : res A;        (* value returned or exception raised *)
  after : world;         (* state left behind *)
  effects : list event   (* what was done, oldest first *)
}.
Arguments result {A} o.
Arguments after {A} o.
Arguments effects {A} o.

Definition M (A : Type) : Type := world → outcome A.

Definition ret {A} (a : A) : M A :=
  λ w, {| result := Ok a; after := w; effects := [] |}.

Definition raise {A} (e : exn) : M A :=
  λ w, {| result := Raise e; after := w; effects := [] |}.

Definition bind {A B} (m : M A) (k : A → M B) : M B :=
  λ w, match m w with
       | {| result := Ok a; after := w1; effects := tr1 |} =>
           match k a w1 with
           | {| result := r; after := w2; effects := tr2 |} =>
               {| result := r; after := w2; effects := tr1 ++ tr2 |}
           end
       | {| result := Raise e; after := w1; effects := tr1 |} =>
           {| result := Raise e; after := w1; effects := tr1 |}
       end.

(** [try: m except Exception as e: h e] *)
Definition try_except {A} (m : M A) (h : exn → M A) : M A :=
  λ w, match m w with
       | {| result := Ok a; after := w1; effects := tr1 |} =>
           {| result := Ok a; after := w1; effects := tr1 |}
       | {| result := Raise e; after := w1; effects := tr1 |} =>
           match h e w1 with
           | {| result := r; after := w2; effects := tr2 |} =>
               {| result := r; after := w2; effects := tr1 ++ tr2 |}
           end
       end.

Definition gets {A} (f : world → A) : M A :=
  λ w, {| result := Ok (f w); after := w; effects := [] |}.

Definition modify (f : world → world) : M unit :=
  λ w, {| result := Ok tt; after := f w; effects := [] |}.

Definition emit (e : event) : M unit :=
  λ w, {| result := Ok tt; after := w; effects := [e] |}.

Notation "x <- c ;; k" := (bind c (λ x, k))
  (at level 100, c at next level, right associativity).
Notation "c ;; k" := (bind c (λ _, k))
  (at level 100, right associativity).

(** ** Helpers of bot.py *)

Definition today : M string := gets utc_day.

(** [get_user]: SELECT the row; when there is none, INSERT
    [(uid, 0, today())], commit and return [(0, today())]. *)
Definition get_user (uid : Z) : M row :=
  r <- gets (λ w, users w !! uid) ;;
  match r with
  | None =>
      d <- today ;;
      modify (set_users (λ m, <[uid := (0, d)]> m)) ;;
      emit (SqlInsert uid 0 d) ;;
      d' <- today ;;
      ret (0, d')
  | Some rw => ret rw
  end.

(** [update_user]: UPDATE ... WHERE user_id=?; a statement that matches
    no row changes nothing. *)
Definition update_user (uid count : Z) (day : string) : M unit :=
  modify (set_users (λ m, alter (λ _, (count, day)) uid m)) ;;
  emit (SqlUpdate uid count day).

(** [is_subscribed]: the argument is what [get_chat_member] answered,
    the member's status or an exception; the bare [except] turns any
    exception into [False]. *)
Definition is_subscribed (m : res string) : bool :=
  match m with
  | Ok status =>
      bool_decide (status ∈ ["member"; "administrator"; "creator"]%string)
  | Raise _ => false
  end.

(** ** The message handler *)

(** The fields of [Update] that [handle] reads; [text] is
    [update.message.text.strip()]. *)
Record Update := { effective_user_id : Z; text : string }.

Definition handle (update : Update) (member : res string) : M unit :=
  let uid := effective_user_id update in
  if negb (is_subscribed member) then
    emit (ReplyText MustSubscribe)
  else
    r <- get_user uid ;;
    r <- (let '(count, day) := r in
          t <- today ;;
          if bool_decide (day ≠ t) then
            t' <- today ;; ret (0, t')
          else ret (count, day)) ;;
    let '(count, day) := r in
    if bool_decide (DAILY_LIMIT ≤ count) then
      emit (ReplyText LimitReached)
    else
      emit Acquire ;;
      modify (set_queue (λ q, q ++ [(uid, text update)])) ;;
      emit (Append (uid, text update)) ;;
      pos <- gets (λ w, length (download_queue w)) ;;
      emit Release ;;
      update_user uid (count + 1) day ;;
      emit (ReplyText (Queued pos)).

(** ** The worker *)

(** What the outside answers during one pass through the body of the
    [while True] loop. *)
Record cycle_env := {
  time_time : Z;            (* int(time.time()) *)
  run_result : res Z;       (* subprocess.run: the return code, or an exception *)
  run_listing : list dirent;(* DOWNLOAD_DIR when subprocess.run is over *)
  send_ok : bool            (* whether the bot.send_* call of this pass succeeds *)
}.

Definition os_path_join (dir name : string) : string :=
  (dir +:+ "/" +:+ name)%string.

(** [max(paths, key=os.path.getctime)]: the first entry among those of
    greatest ctime; [ValueError] on an empty directory. *)
Fixpoint max_ctime (best : dirent) (l : list dirent) : dirent :=
  match l with
  | [] => best
  | f :: l' => max_ctime (if d_ctime best <? d_ctime f then f else best) l'
  end.

Definition newest (l : list dirent) : res dirent :=
  match l with
  | [] => Raise ValueError
  | f :: l' => Ok (max_ctime f l')
  end.

(** [os.remove(path)] inside [DOWNLOAD_DIR]. *)
Definition os_remove (path : string) (l : list dirent) : list dirent :=
  filter (λ f, os_path_join DOWNLOAD_DIR (d_name f) ≠ path) l.

Definition lift_res {A} (r : res A) : M A :=
  match r with
  | Ok a => ret a
  | Raise e => raise e
  end.

(** A [bot.send_*] call: it is issued, and raises when the send fails. *)
Definition bot_send (e : event) (ok : bool) : M unit :=
  emit e ;; if ok then ret tt else raise TelegramError.

(** [download_queue.popleft()] *)
Definition popleft : M job :=
  q <- gets download_queue ;;
  match q with
  | [] => raise IndexError
  | j :: q' => modify (set_queue (λ _, q')) ;; emit (Popleft j) ;; ret j
  end.

(** The output template and the command line built for a job; [t] is
    [int(time.time())]. *)
Definition out_file (uid t : Z) : string :=
  (DOWNLOAD_DIR +:+ "/" +:+ pretty uid +:+ "_" +:+ pretty t +:+ ".%(ext)s")%string.

Definition cmd (uid t : Z) (url : string) : list string :=
  ["yt-dlp"; "-f"; "mp4"; "-o"; out_file uid t; url]%string.

(** The [try] block of the loop. *)
Definition downloader_try (env : cycle_env) : M unit :=
  q <- gets download_queue ;;
  match q with
  | [] => emit (Sleep 2)
  | _ :: _ =>
      emit Acquire ;;
      j <- popleft ;;
      emit Release ;;
      let '(uid, url) := j in
      emit (Run (cmd uid (time_time env) url)) ;;
      modify (set_downloads (λ _, run_listing env)) ;;
      returncode <- lift_res (run_result env) ;;
      if bool_decide (returncode ≠ 0) then
        bot_send (SendMessage uid) (send_ok env)
      else
        l <- gets downloads ;;
        f <- lift_res (newest l) ;;
        let file_path := os_path_join DOWNLOAD_DIR (d_name f) in
        bot_send (SendVideo uid file_path) (send_ok env) ;;
        modify (set_downloads (os_remove file_path)) ;;
        emit (Remove file_path)
  end.

(** One pass through the body of [while True]. *)
Definition downloader_cycle (env : cycle_env) : M unit :=
  try_except (downloader_try env)
    (λ e, emit (LogError e) ;; emit (Sleep 5)).


(** ** Runs of the process within one UTC day *)

(** What can happen to the process: a text message arrives, with the
    answer [get_chat_member] gives for its sender, or the worker makes
    one pass through its loop. *)
Inductive step :=
| Message (update : Update) (member : res string)
| Worker (env : cycle_env).

Definition run_step (s : step) : M unit :=
  match s with
  | Message update member => handle update member
  | Worker env => downloader_cycle env
  end.

Fixpoint run (l : list step) : M unit :=
  match l with
  | [] => ret tt
  | s :: l' => run_step s ;; run l'
  end.

(** Jobs appended to, and taken from, the queue along a trace. *)
Definition appended (tr : list event) : list job :=
  omap (λ e, match e with Append j => Some j | _ => None end) tr.

Definition popped (tr : list event) : list job :=
  omap (λ e, match e with Popleft j => Some j | _ => None end) tr.

(** Messages of [uid] in a run that pass the subscription gate. *)
Definition eligible (uid : Z) (s : step) : bool :=
  match s with
  | Message update member =>
      bool_decide (effective_user_id update = uid) && is_subscribed member
  | Worker _ => false
  end.

Definition submissions (uid : Z) (l : list step) : nat :=
  length (filter (λ s, eligible uid s = true) l).

(** Jobs of [uid] accepted along a trace. *)
Definition accepted (uid : Z) (tr : list event) : nat :=
  length (filter (λ j : job, j.1 = uid) (appended tr)).

(** The world [handle] leaves behind when it accepts. *)
Definition charged (uid : Z) (txt : string) (count : Z) (w : world) : world :=
  set_users (alter (λ _, (count, utc_day w)) uid)
    (set_queue (λ q, q ++ [(uid, txt)]) w).

Definition accept_trace (uid : Z) (txt : string) (count : Z) (w : world)
  : list event :=
  [Acquire; Append (uid, txt); Release; SqlUpdate uid count (utc_day w);
   ReplyText (Queued (length (download_queue w ++ [(uid, txt)])))].

(** What every pass that finds a job does first. *)
Definition taken (uid : Z) (url : string) (env : cycle_env) : list event :=
  [Acquire; Popleft (uid, url); Release; Run (cmd uid (time_time env) url)].

(** The world once [subprocess.run] is over. *)
Definition fetched (q : list job) (env : cycle_env) (w : world) : world :=
  set_downloads (λ _, run_listing env) (set_queue (λ _, q) w).

Ltac run_monad :=
  unfold handle, get_user, update_user, today, bind, gets, modify, emit, ret;
  cbn [result after effects users download_queue downloads utc_day
       set_users set_queue set_downloads app negb].

Ltac run_worker :=
  unfold downloader_cycle, try_except, downloader_try, popleft, bot_send,
    lift_res, bind, gets, modify, emit, ret, raise;
  cbn [result after effects users download_queue downloads utc_day
       set_users set_queue set_downloads app].

(** ** The other handlers and the loop around the worker *)

(** [is_admin]; [ADMIN_ID] is read from the environment when the module
    is loaded. *)
Definition is_admin (ADMIN_ID uid : Z) : bool := bool_decide (uid = ADMIN_ID).

(** [stats]: for the admin, [SELECT COUNT( * ) FROM users] put in a
    reply; for anybody else the handler returns at once.  The value is
    the number replied, [None] when there is no reply. *)
Definition stats (ADMIN_ID uid : Z) : M (option nat) :=
  if negb (is_admin ADMIN_ID uid) then ret None
  else n <- gets (λ w, size (users w)) ;; ret (Some n).

(** The two texts the [check] callback can put in the message. *)
Inductive check_text :=
| Verified          (* the user may send a link now *)
| NotSubscribedYet.

(** [check]: the argument is what [get_chat_member] answered for
    [q.from_user.id]; the value is the text of [edit_message_text]. *)
Definition check (member : res string) : M check_text :=
  if is_subscribed member then ret Verified else ret NotSubscribedYet.

(** The first passes of [while True], one per answer of the outside. *)
Fixpoint passes (envs : list cycle_env) : M unit :=
  match envs with
  | [] => ret tt
  | env :: envs' => downloader_cycle env ;; passes envs'
  end.

(** [downloader_loop]: the argument is the global flag
    [downloader_running], the value is the flag afterwards.  A call
    that finds the flag set returns at once; otherwise the flag is set
    and the loop starts. *)
Definition downloader_loop (downloader_running : bool)
    (envs : list cycle_env) : M bool :=
  if downloader_running then ret true
  else passes envs ;; ret true.

(** The users whose messages pass the subscription gate in a run. *)
Definition senders (l : list step) : gset Z :=
  list_to_set
    (omap (λ s, match s with
                | Message update member =>
                    if is_subscribed member
                    then Some (effective_user_id update) else None
                | Worker _ => None
                end) l).

(** Every stored count lies between 0 and [DAILY_LIMIT]. *)
Definition counts_bounded (w : world) : Prop :=
  map_Forall (λ _ (r : row), 0 ≤ r.1 ≤ DAILY_LIMIT) (users w).

(** The calls of the notifier along a trace. *)
Definition is_send (e : event) : bool :=
  match e with
  | SendMessage _ | SendVideo _ _ => true
  | _ => false
  end.

(** * Properties *)

(** ** Evaluation of [handle], case by case *)

Lemma handle_not_subscribed w update member :
  is_subscribed member = false →
  handle update member w =
    {| result := Ok tt; after := w; effects := [ReplyText MustSubscribe] |}.
Proof. intros H. unfold handle. rewrite H. reflexivity. Qed.

Lemma handle_limit w update member c :
  is_subscribed member = true →
  users w !! effective_user_id update = Some (c, utc_day w) →
  DAILY_LIMIT ≤ c →
  handle update member w =
    {| result := Ok tt; after := w; effects := [ReplyText LimitReached] |}.
Proof.
  intros Hs Hr Hc. unfold handle. rewrite Hs. run_monad. rewrite Hr.
  run_monad. rewrite bool_decide_false by (intros H; apply H; reflexivity).
  run_monad. rewrite bool_decide_true by done. reflexivity.
Qed.

Lemma handle_accept w update member c :
  is_subscribed member = true →
  users w !! effective_user_id update = Some (c, utc_day w) →
  c < DAILY_LIMIT →
  handle update member w =
    {| result := Ok tt;
       after := charged (effective_user_id update) (text update) (c + 1) w;
       effects := accept_trace (effective_user_id update) (text update) (c + 1) w |}.
Proof.
  intros Hs Hr Hc. unfold handle. rewrite Hs. run_monad. rewrite Hr.
  run_monad. rewrite bool_decide_false by (intros H; apply H; reflexivity).
  run_monad. rewrite bool_decide_false by lia. reflexivity.
Qed.

Lemma handle_stale w update member c d :
  is_subscribed member = true →
  users w !! effective_user_id update = Some (c, d) →
  d ≠ utc_day w →
  handle update member w =
    {| result := Ok tt;
       after := charged (effective_user_id update) (text update) 1 w;
       effects := accept_trace (effective_user_id update) (text update) 1 w |}.
Proof.
  intros Hs Hr Hd. unfold handle. rewrite Hs. run_monad. rewrite Hr.
  run_monad. rewrite bool_decide_true by done.
  run_monad. rewrite bool_decide_false by (unfold DAILY_LIMIT; lia). reflexivity.
Qed.

Lemma handle_new w update member :
  is_subscribed member = true →
  users w !! effective_user_id update = None →
  handle update member w =
    {| result := Ok tt;
       after := charged (effective_user_id update) (text update) 1
                  (set_users (<[effective_user_id update := (0, utc_day w)]>) w);
       effects := SqlInsert (effective_user_id update) 0 (utc_day w)
                  :: accept_trace (effective_user_id update) (text update) 1 w |}.
Proof.
  intros Hs Hr. unfold handle. rewrite Hs. run_monad. rewrite Hr.
  run_monad. rewrite bool_decide_false by (intros H; apply H; reflexivity).
  run_monad. rewrite bool_decide_false by (unfold DAILY_LIMIT; lia). reflexivity.
Qed.

(** ** The usage store *)


Lemma get_user_present w uid r :
  users w !! uid = Some r →
  get_user uid w = {| result := Ok r; after := w; effects := [] |}.
Proof. intros H. run_monad. rewrite H. reflexivity. Qed.






(** ** The admission decision *)

(** Every call of [handle] falls in one of five cases. *)
Lemma handle_cases w update member :
  let uid := effective_user_id update in
  let txt := text update in
  let o := handle update member w in
  (is_subscribed member = false
   ∧ o = {| result := Ok tt; after := w;
            effects := [ReplyText MustSubscribe] |})
  ∨ (is_subscribed member = true
     ∧ ∃ c, users w !! uid = Some (c, utc_day w) ∧ DAILY_LIMIT ≤ c
       ∧ o = {| result := Ok tt; after := w;
                effects := [ReplyText LimitReached] |})
  ∨ (is_subscribed member = true
     ∧ ∃ c, users w !! uid = Some (c, utc_day w) ∧ c < DAILY_LIMIT
       ∧ o = {| result := Ok tt; after := charged uid txt (c + 1) w;
                effects := accept_trace uid txt (c + 1) w |})
  ∨ (is_subscribed member = true
     ∧ ∃ c d, users w !! uid = Some (c, d) ∧ d ≠ utc_day w
       ∧ o = {| result := Ok tt; after := charged uid txt 1 w;
                effects := accept_trace uid txt 1 w |})
  ∨ (is_subscribed member = true
     ∧ users w !! uid = None
     ∧ o = {| result := Ok tt;
              after := charged uid txt 1
                         (set_users (<[uid := (0, utc_day w)]>) w);
              effects := SqlInsert uid 0 (utc_day w)
                         :: accept_trace uid txt 1 w |}).
Proof.
  intros uid txt o. subst o.
  destruct (is_subscribed member) eqn:Hs.
  2: { left. split; [done|]. by apply handle_not_subscribed. }
  right. destruct (users w !! uid) as [[c d]|] eqn:Hr.
  2: { do 3 right. split_and!; try done. by apply handle_new. }
  destruct (decide (d = utc_day w)) as [->|Hd].
  2: { do 2 right. left. split; [done|]. exists c, d.
       split_and!; try done. by eapply handle_stale. }
  destruct (decide (DAILY_LIMIT ≤ c)) as [Hc|Hc].
  - left. split; [done|]. exists c. split_and!; try done.
    by eapply handle_limit.
  - right. left. split; [done|]. exists c. split_and!; try done; [lia|].
    apply handle_accept; try done. lia.
Qed.

Lemma charged_users uid txt count w :
  users (charged uid txt count w)
  = alter (λ _, (count, utc_day w)) uid (users w).
Proof. reflexivity. Qed.

Lemma charged_queue uid txt count w :
  download_queue (charged uid txt count w) = download_queue w ++ [(uid, txt)].
Proof. reflexivity. Qed.

(** C1.  For a subscribed user, let [count] be the stored count after
    the stale-day reset (0 when the stored day is not today or when
    there is no row).  At [count = DAILY_LIMIT] the request is answered
    with the limit message and nothing changes, in particular nothing is
    enqueued; at [count = DAILY_LIMIT - 1] the job is enqueued, the
    user is told the position, and the stored count becomes
    [DAILY_LIMIT]. *)
Theorem quota_boundary (w : world) (update : Update) (member : res string) :
  is_subscribed member = true →
  let uid := effective_user_id update in
  let count := match users w !! uid with
               | Some (c, d) => if bool_decide (d = utc_day w) then c else 0
               | None => 0
               end in
  let o := handle update member w in
  (count = DAILY_LIMIT →
     effects o = [ReplyText LimitReached] ∧ after o = w)
  ∧ (count = DAILY_LIMIT - 1 →
       users (after o) !! uid = Some (DAILY_LIMIT, utc_day w)
       ∧ download_queue (after o) = download_queue w ++ [(uid, text update)]
       ∧ last (effects o)
         = Some (ReplyText (Queued (S (length (download_queue w)))))).
Proof.
  intros Hs uid count o. subst count o.
  destruct (users w !! uid) as [[c d]|] eqn:Hr.
  2: { split; intros H; discriminate H. }
  case_bool_decide as Hd.
  2: { split; intros H; discriminate H. }
  subst d. split; intros ->.
  - rewrite (handle_limit w update member DAILY_LIMIT) by done. done.
  - rewrite (handle_accept w update member (DAILY_LIMIT - 1)) by done.
    cbn [after effects]. rewrite charged_users, charged_queue.
    fold uid. rewrite lookup_alter_eq, Hr. split_and!; try done.
    cbn. rewrite length_app. cbn. do 3 f_equal. lia.
Qed.

Lemma quota_boundary_witness :
  let day := "2024-05-01"%string in
  let w := {| users := {[ 7 := (4, day); 8 := (3, day) ]};
              download_queue := [(1, "a"%string)]; downloads := [];
              utc_day := day |} in
  after (handle {| effective_user_id := 7; text := "u" |} (Ok "member"%string) w)
    = w
  ∧ users (after (handle {| effective_user_id := 8; text := "u" |}
                    (Ok "creator"%string) w)) !! 8 = Some (4, day).
Proof.
  intros day w. split.
  - apply (quota_boundary w {| effective_user_id := 7; text := "u" |}
             (Ok "member"%string) eq_refl). reflexivity.
  - apply (quota_boundary w {| effective_user_id := 8; text := "u" |}
             (Ok "creator"%string) eq_refl). reflexivity.
Defined.

(** C5.  A call of [handle] that answers with the subscription message
    or with the limit message does nothing else: its only effect is the
    reply, and the table, the queue and the directory are as before. *)
Theorem rejection_no_mutation (w : world) (update : Update)
    (member : res string) (r : reply) :
  let o := handle update member w in
  ReplyText r ∈ effects o →
  r = MustSubscribe ∨ r = LimitReached →
  after o = w ∧ effects o = [ReplyText r].
Proof.
  intros o Hin Hr. subst o.
  pose proof (handle_cases w update member) as H. cbv zeta in H.
  destruct H as [(_ & Ho)|[(_ & c & _ & _ & Ho)|[(_ & c & _ & _ & Ho)
                |[(_ & c & d & _ & _ & Ho)|(_ & _ & Ho)]]]];
    rewrite Ho in *; cbn [after effects accept_trace] in *.
  - apply list_elem_of_singleton in Hin. by inversion Hin.
  - apply list_elem_of_singleton in Hin. by inversion Hin.
  - exfalso.
    repeat (apply elem_of_cons in Hin as [Hin|Hin]; [by destruct Hr; subst|]).
    by apply elem_of_nil in Hin.
  - exfalso.
    repeat (apply elem_of_cons in Hin as [Hin|Hin]; [by destruct Hr; subst|]).
    by apply elem_of_nil in Hin.
  - exfalso.
    repeat (apply elem_of_cons in Hin as [Hin|Hin]; [by destruct Hr; subst|]).
    by apply elem_of_nil in Hin.
Qed.

Lemma rejection_no_mutation_witness :
  let day := "2024-05-01"%string in
  let w := {| users := {[ 7 := (4, day) ]};
              download_queue := [(1, "a"%string)]; downloads := [];
              utc_day := day |} in
  let u := {| effective_user_id := 7; text := "u" |} in
  after (handle u (Ok "member"%string) w) = w
  ∧ after (handle u (Ok "left"%string) w) = w.
Proof.
  intros day w u. split.
  - apply (rejection_no_mutation w u (Ok "member"%string) LimitReached).
    + vm_compute. apply list_elem_of_here.
    + right. reflexivity.
  - apply (rejection_no_mutation w u (Ok "left"%string) MustSubscribe).
    + vm_compute. apply list_elem_of_here.
    + left. reflexivity.
Defined.

(** C6.  A call of [handle] that tells the user a queue position [pos]
    has done, in this order: (for a user without a row, the insertion
    of the row,) the append of the job while holding [queue_lock], the
    update of the row to [(count + 1, today)], the reply.  [pos] is the
    length of the queue right after the append, and [count] is the
    stored count after the stale-day reset. *)
Theorem accepted_sequence (w : world) (update : Update)
    (member : res string) (pos : nat) :
  let uid := effective_user_id update in
  let o := handle update member w in
  ReplyText (Queued pos) ∈ effects o →
  ∃ (count : Z) (created : list event),
    effects o = created ++
      [Acquire; Append (uid, text update); Release;
       SqlUpdate uid (count + 1) (utc_day w); ReplyText (Queued pos)]
    ∧ (created = [] ∨ created = [SqlInsert uid 0 (utc_day w)])
    ∧ count = match users w !! uid with
              | Some (c, d) => if bool_decide (d = utc_day w) then c else 0
              | None => 0
              end
    ∧ download_queue (after o) = download_queue w ++ [(uid, text update)]
    ∧ pos = length (download_queue w ++ [(uid, text update)])
    ∧ pos = length (download_queue (after o))
    ∧ users (after o) !! uid = Some (count + 1, utc_day w).
Proof.
  intros uid o Hin. subst o.
  pose proof (handle_cases w update member) as H. cbv zeta in H. fold uid in H.
  destruct H as [(_ & Ho)|[(_ & c & _ & _ & Ho)|[(_ & c & Hr & _ & Ho)
                |[(_ & c & d & Hr & Hd & Ho)|(_ & Hr & Ho)]]]];
    rewrite Ho in *; cbn [after effects accept_trace] in *.
  - apply list_elem_of_singleton in Hin. discriminate Hin.
  - apply list_elem_of_singleton in Hin. discriminate Hin.
  - assert (pos = length (download_queue w ++ [(uid, text update)])) as ->.
    { repeat (apply elem_of_cons in Hin as [Hin|Hin]; [by inversion Hin|]).
      by apply elem_of_nil in Hin. }
    exists c, []. rewrite charged_users, charged_queue, lookup_alter_eq, Hr.
    rewrite bool_decide_true by done. split_and!; try done. by left.
  - assert (pos = length (download_queue w ++ [(uid, text update)])) as ->.
    { repeat (apply elem_of_cons in Hin as [Hin|Hin]; [by inversion Hin|]).
      by apply elem_of_nil in Hin. }
    exists 0, []. rewrite charged_users, charged_queue, lookup_alter_eq, Hr.
    rewrite bool_decide_false by done. split_and!; try done. by left.
  - assert (pos = length (download_queue w ++ [(uid, text update)])) as ->.
    { repeat (apply elem_of_cons in Hin as [Hin|Hin]; [by inversion Hin|]).
      by apply elem_of_nil in Hin. }
    exists 0, [SqlInsert uid 0 (utc_day w)].
    rewrite charged_users, charged_queue. cbn [users set_users utc_day].
    rewrite lookup_alter_eq, lookup_insert_eq, Hr.
    split_and!; try done. by right.
Qed.

Lemma accepted_sequence_witness :
  let day := "2024-05-01"%string in
  let w := {| users := {[ 7 := (2, day) ]};
              download_queue := [(1, "a"%string)]; downloads := [];
              utc_day := day |} in
  let u := {| effective_user_id := 7; text := "u" |} in
  ∃ count created,
    effects (handle u (Ok "member"%string) w) = created ++
      [Acquire; Append (7, "u"%string); Release;
       SqlUpdate 7 (count + 1) day; ReplyText (Queued 2)].
Proof.
  intros day w u.
  destruct (accepted_sequence w u (Ok "member"%string) 2)
    as (count & created & H & _).
  - vm_compute. do 4 apply list_elem_of_further. apply list_elem_of_here.
  - exists count, created. exact H.
Defined.

(** ** One pass of the worker, case by case *)

Lemma cycle_idle w env :
  download_queue w = [] →
  downloader_cycle env w =
    {| result := Ok tt; after := w; effects := [Sleep 2] |}.
Proof. intros Hq. run_worker. rewrite Hq. reflexivity. Qed.

Lemma cycle_run_raises w env uid url q e :
  download_queue w = (uid, url) :: q →
  run_result env = Raise e →
  downloader_cycle env w =
    {| result := Ok tt; after := fetched q env w;
       effects := taken uid url env ++ [LogError e; Sleep 5] |}.
Proof.
  intros Hq Hr. run_worker. rewrite !Hq. run_worker. rewrite Hr. reflexivity.
Qed.

Lemma cycle_exit_nonzero w env uid url q rc :
  download_queue w = (uid, url) :: q →
  run_result env = Ok rc → rc ≠ 0 →
  downloader_cycle env w =
    {| result := Ok tt; after := fetched q env w;
       effects := taken uid url env ++ SendMessage uid ::
                  (if send_ok env then []
                   else [LogError TelegramError; Sleep 5]) |}.
Proof.
  intros Hq Hr Hrc. run_worker. rewrite !Hq. run_worker. rewrite Hr.
  run_worker. rewrite bool_decide_true by done.
  destruct (send_ok env); reflexivity.
Qed.

Lemma cycle_exit_zero_empty w env uid url q :
  download_queue w = (uid, url) :: q →
  run_result env = Ok 0 →
  run_listing env = [] →
  downloader_cycle env w =
    {| result := Ok tt; after := fetched q env w;
       effects := taken uid url env ++ [LogError ValueError; Sleep 5] |}.
Proof.
  intros Hq Hr Hl. run_worker. rewrite !Hq. run_worker. rewrite Hr.
  run_worker. rewrite bool_decide_false by (intros H; by apply H).
  run_worker. unfold fetched. rewrite Hl. reflexivity.
Qed.

Lemma cycle_exit_zero w env uid url q f :
  download_queue w = (uid, url) :: q →
  run_result env = Ok 0 →
  newest (run_listing env) = Ok f →
  let path := os_path_join DOWNLOAD_DIR (d_name f) in
  downloader_cycle env w =
    if send_ok env then
      {| result := Ok tt;
         after := set_downloads (os_remove path) (fetched q env w);
         effects := taken uid url env ++ [SendVideo uid path; Remove path] |}
    else
      {| result := Ok tt; after := fetched q env w;
         effects := taken uid url env ++
                    [SendVideo uid path; LogError TelegramError; Sleep 5] |}.
Proof.
  intros Hq Hr Hf path. subst path. run_worker. rewrite !Hq. run_worker.
  rewrite Hr. run_worker. rewrite bool_decide_false by (intros H; by apply H).
  run_worker. rewrite Hf. run_worker.
  destruct (send_ok env); reflexivity.
Qed.

(** ** Finding the newest file *)



Lemma os_remove_gone (f : dirent) (l : list dirent) :
  f ∉ os_remove (os_path_join DOWNLOAD_DIR (d_name f)) l.
Proof.
  unfold os_remove. rewrite list_elem_of_filter. intros [Hne _]. by apply Hne.
Qed.

(** ** The worker after a successful fetch *)




(** ** The worker after a failed fetch *)

(** C4, as the code has it.  When the fetch exits with a non-zero code
    or runs into the timeout, the pass ends normally, the job is off
    the queue and is not put back, and the worker deletes nothing: the
    directory is as the fetch left it.  After a non-zero exit the
    failure message is sent to the user, as the last call before the
    pass ends or, if that send raises, before the error is logged. *)
Theorem failure_path_drop (w : world) (env : cycle_env) (uid : Z)
    (url : string) (q : list job) :
  download_queue w = (uid, url) :: q →
  (∃ rc, run_result env = Ok rc ∧ rc ≠ 0)
    ∨ run_result env = Raise TimeoutExpired →
  let o := downloader_cycle env w in
  result o = Ok tt
  ∧ download_queue (after o) = q
  ∧ appended (effects o) = []
  ∧ popped (effects o) = [(uid, url)]
  ∧ downloads (after o) = run_listing env
  ∧ users (after o) = users w
  ∧ (∀ rc, run_result env = Ok rc → rc ≠ 0 →
       effects o = [Acquire; Popleft (uid, url); Release;
                    Run (cmd uid (time_time env) url); SendMessage uid]
                   ++ (if send_ok env then []
                       else [LogError TelegramError; Sleep 5])).
Proof.
  intros Hq [(rc & Hr & Hrc)|Hr] o; subst o.
  - rewrite (cycle_exit_nonzero w env uid url q rc Hq Hr Hrc).
    cbn [result after effects]. split_and!; try done.
    + by destruct (send_ok env).
    + by destruct (send_ok env).
  - rewrite (cycle_run_raises w env uid url q _ Hq Hr).
    cbn [result after effects]. split_and!; try done.
    intros rc Hrc. rewrite Hr in Hrc. discriminate Hrc.
Qed.

Lemma failure_path_drop_witness :
  let part := {| d_name := "7_1700000000.mp4.part"; d_ctime := 9 |} in
  let w := {| users := ∅;
              download_queue := [(7, "u"%string); (8, "v"%string)];
              downloads := []; utc_day := "2024-05-01" |} in
  let env r := {| time_time := 1700000000; run_result := r;
                  run_listing := [part]; send_ok := true |} in
  download_queue (after (downloader_cycle (env (Ok 1)) w)) = [(8, "v"%string)]
  ∧ downloads (after (downloader_cycle (env (Raise TimeoutExpired)) w))
    = [part].
Proof.
  intros part w env. split.
  - apply (failure_path_drop w (env (Ok 1)) 7 "u" [(8, "v"%string)] eq_refl).
    left. exists 1. split; [reflexivity|lia].
  - apply (failure_path_drop w (env (Raise TimeoutExpired)) 7 "u"
             [(8, "v"%string)] eq_refl).
    right. reflexivity.
Defined.

(** C4 as the spec states it does not hold: after a non-zero exit a
    file the fetch left behind is still in the directory. *)
Lemma failure_path_keeps_partial_file :
  ¬ (∀ (w : world) (env : cycle_env) (uid : Z) (url : string) (q : list job),
       download_queue w = (uid, url) :: q →
       (∃ rc, run_result env = Ok rc ∧ rc ≠ 0)
         ∨ run_result env = Raise TimeoutExpired →
       let o := downloader_cycle env w in
       SendMessage uid ∈ effects o
       ∧ download_queue (after o) = q
       ∧ (∀ f, f ∈ run_listing env → f ∉ downloads w →
               f ∉ downloads (after o))).
Proof.
  intros H.
  pose (part := {| d_name := "7_1700000000.mp4.part"; d_ctime := 9 |}).
  pose (w := {| users := ∅; download_queue := [(7, "u"%string)];
                downloads := []; utc_day := "2024-05-01" |}).
  pose (env := {| time_time := 1700000000; run_result := Ok 1;
                  run_listing := [part]; send_ok := true |}).
  destruct (H w env 7 "u"%string [] eq_refl) as (_ & _ & Hgone).
  - left. exists 1. split; [reflexivity|lia].
  - apply (Hgone part).
    + left.
    + apply not_elem_of_nil.
    + vm_compute. left.
Qed.

(** ** Steps and runs *)

Lemma bind_ok {A B} (m : M A) (k : A → M B) w a w1 tr1 :
  m w = {| result := Ok a; after := w1; effects := tr1 |} →
  bind m k w = {| result := result (k a w1); after := after (k a w1);
                  effects := tr1 ++ effects (k a w1) |}.
Proof. intros H. unfold bind. rewrite H. by destruct (k a w1). Qed.

Lemma appended_app tr1 tr2 :
  appended (tr1 ++ tr2) = appended tr1 ++ appended tr2.
Proof. apply omap_app. Qed.

Lemma popped_app tr1 tr2 : popped (tr1 ++ tr2) = popped tr1 ++ popped tr2.
Proof. apply omap_app. Qed.

Lemma accepted_app uid tr1 tr2 :
  accepted uid (tr1 ++ tr2) = (accepted uid tr1 + accepted uid tr2)%nat.
Proof. unfold accepted. by rewrite appended_app, filter_app, length_app. Qed.

Lemma accepted_accept_trace uid u txt count w :
  accepted uid (accept_trace u txt count w)
  = if decide (u = uid) then 1%nat else 0%nat.
Proof.
  unfold accepted.
  change (appended (accept_trace u txt count w)) with [(u, txt)].
  rewrite filter_cons, filter_nil. cbn. by destruct (decide (u = uid)).
Qed.

(** What a pass of the worker never touches, and what it does to the
    queue. *)
Lemma cycle_summary w env :
  let o := downloader_cycle env w in
  result o = Ok tt
  ∧ users (after o) = users w
  ∧ utc_day (after o) = utc_day w
  ∧ appended (effects o) = []
  ∧ download_queue w = popped (effects o) ++ download_queue (after o).
Proof.
  intros o. subst o.
  destruct (download_queue w) as [|[uid url] q] eqn:Hq.
  { rewrite (cycle_idle w env Hq). cbn. by rewrite Hq. }
  destruct (run_result env) as [rc|e] eqn:Hr.
  2: { by rewrite (cycle_run_raises w env uid url q e Hq Hr). }
  destruct (decide (rc = 0)) as [->|Hrc].
  2: { rewrite (cycle_exit_nonzero w env uid url q rc Hq Hr Hrc).
       by destruct (send_ok env). }
  destruct (run_listing env) as [|f l] eqn:Hl.
  { by rewrite (cycle_exit_zero_empty w env uid url q Hq Hr Hl). }
  rewrite (cycle_exit_zero w env uid url q (max_ctime f l) Hq Hr)
    by (by rewrite Hl).
  by destruct (send_ok env).
Qed.

(** The same for the handler. *)
Lemma handle_summary w update member :
  let o := handle update member w in
  result o = Ok tt
  ∧ utc_day (after o) = utc_day w
  ∧ downloads (after o) = downloads w
  ∧ popped (effects o) = []
  ∧ download_queue (after o) = download_queue w ++ appended (effects o)
  ∧ (∀ u, u ≠ effective_user_id update →
          users (after o) !! u = users w !! u
          ∧ accepted u (effects o) = 0%nat).
Proof.
  intros o. subst o.
  pose proof (handle_cases w update member) as H. cbv zeta in H.
  destruct H as [(_ & Ho)|[(_ & c & _ & _ & Ho)|[(_ & c & _ & _ & Ho)
                |[(_ & c & d & _ & _ & Ho)|(_ & _ & Ho)]]]];
    rewrite Ho; cbn [result after effects].
  - split_and!; try done. by rewrite app_nil_r.
  - split_and!; try done. by rewrite app_nil_r.
  - split_and!; try done. intros u Hu. rewrite charged_users.
    rewrite lookup_alter_ne by done. rewrite accepted_accept_trace.
    by rewrite decide_False by done.
  - split_and!; try done. intros u Hu. rewrite charged_users.
    rewrite lookup_alter_ne by done. rewrite accepted_accept_trace.
    by rewrite decide_False by done.
  - split_and!; try done. intros u Hu. rewrite charged_users.
    cbn [users set_users]. rewrite lookup_alter_ne, lookup_insert_ne by done.
    split; [done|]. change (SqlInsert ?a ?b ?c :: ?t) with ([SqlInsert a b c] ++ t).
    rewrite accepted_app, accepted_accept_trace.
    by rewrite decide_False by done.
Qed.

Lemma run_step_ok s w : result (run_step s w) = Ok tt.
Proof.
  destruct s as [update member|env]; cbn.
  - apply handle_summary.
  - apply cycle_summary.
Qed.

Lemma run_cons s l w :
  run (s :: l) w =
    {| result := result (run l (after (run_step s w)));
       after := after (run l (after (run_step s w)));
       effects := effects (run_step s w)
                  ++ effects (run l (after (run_step s w))) |}.
Proof.
  cbn [run]. pose proof (run_step_ok s w) as Hok.
  destruct (run_step s w) as [r w1 tr1] eqn:Hs. cbn in Hok. subst r.
  by rewrite (bind_ok _ _ _ _ _ _ Hs).
Qed.

(** C9.  Along every run of messages and worker passes, the jobs taken
    from the queue are, in the same order, the first of the jobs that
    were in the queue at the start followed by those appended since;
    the rest is what the queue holds at the end.  Nothing is reordered,
    skipped or taken twice. *)
Theorem fifo_order (w : world) (l : list step) :
  let o := run l w in
  result o = Ok tt
  ∧ download_queue w ++ appended (effects o)
    = popped (effects o) ++ download_queue (after o).
Proof.
  revert w. induction l as [|s l IH]; intros w; cbn zeta.
  - cbn. split; [done|]. by rewrite app_nil_r.
  - rewrite run_cons. cbn [result after effects].
    destruct (IH (after (run_step s w))) as [Hok Hq]. split; [done|].
    rewrite appended_app, popped_app, <- (assoc_L (++)), <- Hq.
    rewrite !(assoc_L (++)). f_equal.
    destruct s as [update member|env]; cbn [run_step].
    + destruct (handle_summary w update member) as (_ & _ & _ & -> & -> & _).
      done.
    + destruct (cycle_summary w env) as (_ & _ & _ & -> & Hw).
      by rewrite app_nil_r.
Qed.

(** ** Reading the store writes nothing for a known user *)

Lemma accept_trace_no_update uid u txt count w c d :
  u ≠ uid → SqlUpdate uid c d ∉ accept_trace u txt count w.
Proof.
  intros Hne Hin. unfold accept_trace in Hin.
  repeat (apply elem_of_cons in Hin as [Hin|Hin];
          [inversion Hin; by subst|]).
  by apply elem_of_nil in Hin.
Qed.

(** C10.  For a user with a row, [get_user] returns the row and writes
    nothing.  When that row is stale it stays as it is through worker
    passes and through every call of [handle] but one kind: a message of
    that user that passes the subscription gate, whose [update_user]
    stores [(1, today)]. *)
Theorem get_user_read_only (w : world) (uid : Z) (r : row) :
  users w !! uid = Some r →
  get_user uid w = {| result := Ok r; after := w; effects := [] |}
  ∧ (r.2 ≠ utc_day w →
     (∀ env, users (after (downloader_cycle env w)) = users w)
     ∧ (∀ update member,
          let o := handle update member w in
          (users (after o) !! uid = Some r
           ∧ ∀ c d, SqlUpdate uid c d ∉ effects o)
          ∨ (effective_user_id update = uid
             ∧ is_subscribed member = true
             ∧ effects o =
                 [Acquire; Append (uid, text update); Release;
                  SqlUpdate uid 1 (utc_day w);
                  ReplyText (Queued (S (length (download_queue w))))]
             ∧ users (after o) !! uid = Some (1, utc_day w)))).
Proof.
  intros Hr. split; [by apply get_user_present|].
  intros Hstale. split; [intros env; apply cycle_summary|].
  intros update member o. subst o.
  pose proof (handle_cases w update member) as H. cbv zeta in H.
  destruct H as [(_ & Ho)|[(_ & c & _ & _ & Ho)|[(_ & c & Hu & _ & Ho)
                |[(Hs & c & d & Hu & _ & Ho)|(_ & Hu & Ho)]]]];
    rewrite Ho; cbn [result after effects].
  - left. split; [done|]. intros c d Hin.
    apply list_elem_of_singleton in Hin. discriminate Hin.
  - left. split; [done|]. intros c' d Hin.
    apply list_elem_of_singleton in Hin. discriminate Hin.
  - left. destruct (decide (effective_user_id update = uid)) as [He|He].
    { exfalso. rewrite He, Hr in Hu. by inversion Hu; subst. }
    rewrite charged_users, lookup_alter_ne by done. split; [done|].
    intros c' d'. by apply accept_trace_no_update.
  - destruct (decide (effective_user_id update = uid)) as [He|He].
    + right. rewrite charged_users, He, lookup_alter_eq, Hr.
      split_and!; try done. unfold accept_trace. rewrite length_app. cbn.
      by rewrite Nat.add_1_r.
    + left. rewrite charged_users, lookup_alter_ne by done. split; [done|].
      intros c' d'. by apply accept_trace_no_update.
  - left. destruct (decide (effective_user_id update = uid)) as [He|He].
    { exfalso. rewrite He, Hr in Hu. discriminate Hu. }
    rewrite charged_users. cbn [users set_users].
    rewrite lookup_alter_ne, lookup_insert_ne by done. split; [done|].
    intros c' d' Hin. apply elem_of_cons in Hin as [Hin|Hin];
      [discriminate Hin|]. by apply accept_trace_no_update in Hin.
Qed.

Lemma get_user_read_only_witness :
  let w := {| users := {[ 7 := (4, "2024-04-30"%string) ]};
              download_queue := []; downloads := [];
              utc_day := "2024-05-01" |} in
  get_user 7 w
    = {| result := Ok (4, "2024-04-30"%string); after := w; effects := [] |}
  ∧ users (after (downloader_cycle
                    {| time_time := 0; run_result := Ok 0;
                       run_listing := []; send_ok := true |} w)) = users w.
Proof.
  intros w.
  destruct (get_user_read_only w 7 (4, "2024-04-30"%string) eq_refl)
    as [Hread Hstale].
  split; [exact Hread|].
  destruct Hstale as [Hworker _]; [by vm_compute|]. apply Hworker.
Defined.

(** ** The daily counter along a run *)

(** One step on a row that is already of today: the count goes up by
    one exactly when the step is an eligible message of the user and
    the limit is not reached. *)
Lemma step_fresh s w uid c :
  users w !! uid = Some (c, utc_day w) →
  let o := run_step s w in
  let n := if eligible uid s && bool_decide (c < DAILY_LIMIT)
           then 1%nat else 0%nat in
  utc_day (after o) = utc_day w
  ∧ accepted uid (effects o) = n
  ∧ users (after o) !! uid = Some (c + Z.of_nat n, utc_day w).
Proof.
  intros Hr o n. subst o n. destruct s as [update member|env]; cbn [run_step eligible].
  2: { destruct (cycle_summary w env) as (_ & -> & -> & Ha & _).
       unfold accepted. rewrite Ha, Hr. cbn. by rewrite Z.add_0_r. }
  destruct (decide (effective_user_id update = uid)) as [He|He].
  2: { rewrite bool_decide_false by done. cbn.
       destruct (handle_summary w update member) as (_ & -> & _ & _ & _ & Hf).
       destruct (Hf uid) as [-> ->]; [done|]. by rewrite Hr, Z.add_0_r. }
  rewrite bool_decide_true by done. cbn [andb].
  destruct (is_subscribed member) eqn:Hs; cbn [andb].
  2: { rewrite (handle_not_subscribed w update member Hs). cbn.
       by rewrite Hr, Z.add_0_r. }
  rewrite <- He in Hr. case_bool_decide as Hc.
  - rewrite (handle_accept w update member c Hs Hr Hc). cbn [after effects].
    rewrite accepted_accept_trace, decide_True by done.
    rewrite charged_users, <- He, lookup_alter_eq, Hr. done.
  - rewrite (handle_limit w update member c Hs Hr) by lia. cbn.
    by rewrite <- He, Hr, Z.add_0_r.
Qed.

(** One step on a stale row: an eligible message of the user is
    accepted and stores [(1, today)]; any other step leaves the row. *)
Lemma step_stale s w uid c d :
  users w !! uid = Some (c, d) → d ≠ utc_day w →
  let o := run_step s w in
  utc_day (after o) = utc_day w
  ∧ if eligible uid s
    then accepted uid (effects o) = 1%nat
         ∧ users (after o) !! uid = Some (1, utc_day w)
    else accepted uid (effects o) = 0%nat
         ∧ users (after o) !! uid = Some (c, d).
Proof.
  intros Hr Hd o. subst o. destruct s as [update member|env]; cbn [run_step eligible].
  2: { destruct (cycle_summary w env) as (_ & -> & -> & Ha & _).
       unfold accepted. by rewrite Ha, Hr. }
  destruct (decide (effective_user_id update = uid)) as [He|He].
  2: { rewrite bool_decide_false by done. cbn.
       destruct (handle_summary w update member) as (_ & -> & _ & _ & _ & Hf).
       destruct (Hf uid) as [-> ->]; [done|]. by rewrite Hr. }
  rewrite bool_decide_true by done. cbn [andb].
  destruct (is_subscribed member) eqn:Hs.
  2: { rewrite (handle_not_subscribed w update member Hs). cbn.
       by rewrite Hr. }
  rewrite <- He in Hr.
  rewrite (handle_stale w update member c d Hs Hr Hd). cbn [after effects].
  rewrite accepted_accept_trace, decide_True by done.
  rewrite charged_users, <- He, lookup_alter_eq, Hr. done.
Qed.

Lemma submissions_cons uid s l :
  submissions uid (s :: l)
  = ((if eligible uid s then 1 else 0) + submissions uid l)%nat.
Proof.
  unfold submissions. rewrite filter_cons.
  destruct (eligible uid s); by case_decide.
Qed.

(** A run on a row of today: the count grows with the eligible messages
    of the user until it reaches the limit. *)
Lemma run_fresh l w uid c :
  users w !! uid = Some (c, utc_day w) →
  0 ≤ c ≤ DAILY_LIMIT →
  let o := run l w in
  let n := Nat.min (submissions uid l) (Z.to_nat (DAILY_LIMIT - c)) in
  accepted uid (effects o) = n
  ∧ users (after o) !! uid = Some (c + Z.of_nat n, utc_day w).
Proof.
  revert w c. induction l as [|s l IH]; intros w c Hr Hc; cbn zeta.
  { cbn. by rewrite Hr, Z.add_0_r. }
  rewrite run_cons. cbn [after effects].
  destruct (step_fresh s w uid c Hr) as (Hday & Hacc & Hrow).
  rewrite accepted_app, Hacc, submissions_cons.
  rewrite <- Hday in Hrow.
  destruct (eligible uid s) eqn:He; cbn [andb] in *.
  - case_bool_decide as Hlt.
    + destruct (IH _ _ Hrow ltac:(unfold DAILY_LIMIT in *; lia)) as [-> ->].
      rewrite Hday. unfold DAILY_LIMIT in *. split; [lia|f_equal; f_equal; lia].
    + destruct (IH _ _ Hrow ltac:(unfold DAILY_LIMIT in *; lia)) as [-> ->].
      rewrite Hday. unfold DAILY_LIMIT in *. split; [lia|f_equal; f_equal; lia].
  - destruct (IH _ _ Hrow ltac:(unfold DAILY_LIMIT in *; lia)) as [-> ->].
    rewrite Hday. unfold DAILY_LIMIT in *. split; [lia|f_equal; f_equal; lia].
Qed.

(** C2.  Start from a stored row of an earlier day, whatever its
    count, and let any messages and worker passes of one UTC day follow.
    Of the user's [k] messages that pass the subscription gate exactly
    the first [min k DAILY_LIMIT] are accepted, and from the first of
    them on the row holds that number with today's date: the count is
    taken as 0 once, at the first such message, and never again that
    day.  With no such message the row is left as it was. *)
Theorem stale_day_reset_once (w : world) (l : list step) (uid c : Z)
    (d : string) :
  users w !! uid = Some (c, d) →
  d ≠ utc_day w →
  let o := run l w in
  let k := submissions uid l in
  accepted uid (effects o) = Nat.min k (Z.to_nat DAILY_LIMIT)
  ∧ users (after o) !! uid
    = Some (if decide (k = 0%nat) then (c, d)
            else (Z.of_nat (Nat.min k (Z.to_nat DAILY_LIMIT)), utc_day w)).
Proof.
  revert w. induction l as [|s l IH]; intros w Hr Hd; cbn zeta.
  { by cbn. }
  rewrite run_cons. cbn [after effects].
  destruct (step_stale s w uid c d Hr Hd) as (Hday & Hstep).
  rewrite accepted_app, submissions_cons.
  destruct (eligible uid s) eqn:He.
  - destruct Hstep as [-> Hrow]. rewrite <- Hday in Hrow.
    destruct (run_fresh l _ uid 1 Hrow ltac:(unfold DAILY_LIMIT; lia))
      as [-> ->].
    rewrite Hday, decide_False by lia. unfold DAILY_LIMIT.
    split; [lia|f_equal; f_equal; lia].
  - destruct Hstep as [-> Hrow]. rewrite <- Hday in Hd.
    destruct (IH _ Hrow Hd) as [-> ->]. rewrite Hday. cbn [Nat.add].
    done.
Qed.

Lemma stale_day_reset_once_witness :
  let w := {| users := {[ 7 := (4, "2024-04-30"%string) ]};
              download_queue := []; downloads := [];
              utc_day := "2024-05-01" |} in
  let m7 := Message {| effective_user_id := 7; text := "u" |}
              (Ok "member"%string) in
  let m8 := Message {| effective_user_id := 8; text := "v" |}
              (Ok "member"%string) in
  let pass := Worker {| time_time := 0; run_result := Ok 1;
                        run_listing := []; send_ok := true |} in
  let l := [m8; m7; m7; pass; m7; m7; m7] in
  accepted 7 (effects (run l w)) = 4%nat
  ∧ users (after (run l w)) !! 7 = Some (4, "2024-05-01"%string).
Proof.
  intros w m7 m8 pass l.
  destruct (stale_day_reset_once w l 7 4 "2024-04-30" eq_refl) as [Ha Hr].
  - discriminate.
  - split; [exact Ha|exact Hr].
Defined.

(** * Further properties *)

(** ** The usage store, edge cases *)




(** ** The handler, edge cases and frame *)

(** X3.  The first message of a subscribed user who has no row is
    always accepted: the row is inserted with count 0, the job is
    appended, the row is updated to [(1, today)], and the user is told
    the position. *)
Theorem first_message_new_user (w : world) (update : Update)
    (member : res string) :
  is_subscribed member = true →
  users w !! effective_user_id update = None →
  let uid := effective_user_id update in
  let o := handle update member w in
  effects o = [SqlInsert uid 0 (utc_day w); Acquire;
               Append (uid, text update); Release;
               SqlUpdate uid 1 (utc_day w);
               ReplyText (Queued (S (length (download_queue w))))]
  ∧ users (after o) = <[uid := (1, utc_day w)]> (users w)
  ∧ download_queue (after o) = download_queue w ++ [(uid, text update)].
Proof.
  intros Hs Hr uid o. subst o. rewrite (handle_new w update member Hs Hr).
  cbn [after effects]. fold uid. split_and!.
  - unfold accept_trace. rewrite length_app. cbn. by rewrite Nat.add_1_r.
  - rewrite charged_users. cbn [users set_users utc_day].
    apply map_eq. intros u. destruct (decide (u = uid)) as [->|Hu].
    + by rewrite lookup_alter_eq, !lookup_insert_eq.
    + by rewrite lookup_alter_ne, !lookup_insert_ne.
  - done.
Qed.

Lemma first_message_new_user_witness :
  let w := {| users := ∅; download_queue := []; downloads := [];
              utc_day := "2024-05-01" |} in
  let o := handle {| effective_user_id := 7; text := "x" |}
             (Ok "member"%string) w in
  users (after o) = <[7 := (1, "2024-05-01"%string)]> ∅
  ∧ download_queue (after o) = [(7, "x"%string)].
Proof.
  intros w o.
  destruct (first_message_new_user w {| effective_user_id := 7; text := "x" |}
              (Ok "member"%string) eq_refl eq_refl) as (_ & Hu & Hq).
  split; [exact Hu|exact Hq].
Defined.


(** ** Quota accounting along a run *)

Lemma step_absent s w uid :
  users w !! uid = None →
  let o := run_step s w in
  utc_day (after o) = utc_day w
  ∧ if eligible uid s
    then accepted uid (effects o) = 1%nat
         ∧ users (after o) !! uid = Some (1, utc_day w)
    else accepted uid (effects o) = 0%nat
         ∧ users (after o) !! uid = None.
Proof.
  intros Hr o. subst o.
  destruct s as [update member|env]; cbn [run_step eligible].
  2: { destruct (cycle_summary w env) as (_ & -> & -> & Ha & _).
       unfold accepted. by rewrite Ha, Hr. }
  destruct (decide (effective_user_id update = uid)) as [He|He].
  2: { rewrite bool_decide_false by done. cbn.
       destruct (handle_summary w update member) as (_ & -> & _ & _ & _ & Hf).
       destruct (Hf uid) as [-> ->]; [done|]. by rewrite Hr. }
  rewrite bool_decide_true by done. cbn [andb].
  destruct (is_subscribed member) eqn:Hs.
  2: { rewrite (handle_not_subscribed w update member Hs). cbn.
       by rewrite Hr. }
  rewrite <- He in Hr.
  rewrite (handle_new w update member Hs Hr). cbn [after effects].
  change (SqlInsert ?a ?b ?c :: ?t) with ([SqlInsert a b c] ++ t).
  rewrite accepted_app, accepted_accept_trace, decide_True by done.
  rewrite charged_users. cbn [users set_users utc_day].
  by rewrite <- He, lookup_alter_eq, lookup_insert_eq.
Qed.

(** A run on a row of today, whatever its count. *)
Lemma run_today l w uid c :
  users w !! uid = Some (c, utc_day w) →
  let o := run l w in
  let n := Nat.min (submissions uid l) (Z.to_nat (DAILY_LIMIT - c)) in
  accepted uid (effects o) = n
  ∧ users (after o) !! uid = Some (c + Z.of_nat n, utc_day w).
Proof.
  revert w c. induction l as [|s l IH]; intros w c Hr; cbn zeta.
  { cbn. by rewrite Hr, Z.add_0_r. }
  rewrite run_cons. cbn [after effects].
  destruct (step_fresh s w uid c Hr) as (Hday & Hacc & Hrow).
  rewrite accepted_app, Hacc, submissions_cons.
  rewrite <- Hday in Hrow.
  destruct (IH _ _ Hrow) as [-> ->]. rewrite Hday.
  destruct (eligible uid s) eqn:He; cbn [andb] in *;
    [case_bool_decide as Hlt|];
    unfold DAILY_LIMIT in *; (split; [lia|f_equal; f_equal; lia]).
Qed.

(** A run on a row of an earlier day, or for a user without a row. *)
Lemma run_not_today l w uid :
  (∀ c, users w !! uid ≠ Some (c, utc_day w)) →
  let o := run l w in
  let n := Nat.min (submissions uid l) (Z.to_nat DAILY_LIMIT) in
  accepted uid (effects o) = n
  ∧ users (after o) !! uid
    = if decide (submissions uid l = 0%nat) then users w !! uid
      else Some (Z.of_nat n, utc_day w).
Proof.
  revert w. induction l as [|s l IH]; intros w Hr; cbn zeta.
  { by cbn. }
  rewrite run_cons. cbn [after effects].
  rewrite accepted_app, submissions_cons.
  assert (Hstep : utc_day (after (run_step s w)) = utc_day w
    ∧ if eligible uid s
      then accepted uid (effects (run_step s w)) = 1%nat
           ∧ users (after (run_step s w)) !! uid = Some (1, utc_day w)
      else accepted uid (effects (run_step s w)) = 0%nat
           ∧ users (after (run_step s w)) !! uid = users w !! uid).
  { destruct (users w !! uid) as [[c d]|] eqn:Hrow.
    - assert (d ≠ utc_day w) as Hd by (intros ->; by apply (Hr c)).
      destruct (step_stale s w uid c d Hrow Hd) as [Hday Hs].
      split; [done|]. by destruct (eligible uid s).
    - destruct (step_absent s w uid Hrow) as [Hday Hs].
      split; [done|]. by destruct (eligible uid s). }
  destruct Hstep as [Hday Hstep]. destruct (eligible uid s) eqn:He.
  - destruct Hstep as [-> Hrow]. rewrite <- Hday in Hrow.
    destruct (run_today l _ uid 1 Hrow) as [-> ->].
    rewrite Hday, decide_False by lia. unfold DAILY_LIMIT.
    split; [lia|f_equal; f_equal; lia].
  - destruct Hstep as [-> Hrow].
    destruct (IH (after (run_step s w))) as [-> ->].
    { intros c. rewrite Hrow, Hday. apply Hr. }
    rewrite Hrow, Hday. cbn [Nat.add]. done.
Qed.

(** X5.  Let [c0] be the count a user starts the day with: the stored
    count if the row is of today, 0 if it is older or missing.  Along
    any run of messages and worker passes of that day, of the user's [k]
    messages that pass the subscription gate exactly
    [min k (DAILY_LIMIT - c0)] are accepted, each of them is charged
    once (the row ends at [c0] plus that number, with today's date),
    and for [0 ≤ c0] no more than [DAILY_LIMIT] are accepted. *)
Theorem quota_accounting (w : world) (l : list step) (uid : Z) :
  let c0 := match users w !! uid with
            | Some (c, d) => if bool_decide (d = utc_day w) then c else 0
            | None => 0
            end in
  let o := run l w in
  let k := submissions uid l in
  accepted uid (effects o) = Nat.min k (Z.to_nat (DAILY_LIMIT - c0))
  ∧ (k ≠ 0%nat →
     users (after o) !! uid
     = Some (c0 + Z.of_nat (accepted uid (effects o)), utc_day w))
  ∧ (k = 0%nat → users (after o) !! uid = users w !! uid)
  ∧ (0 ≤ c0 → Z.of_nat (accepted uid (effects o)) ≤ DAILY_LIMIT).
Proof.
  intros c0 o k. subst o k.
  assert (Hcases : (∃ c, users w !! uid = Some (c, utc_day w) ∧ c0 = c)
                   ∨ ((∀ c, users w !! uid ≠ Some (c, utc_day w)) ∧ c0 = 0)).
  { subst c0. destruct (users w !! uid) as [[c d]|]; [|by right].
    case_bool_decide as Hd; [subst d; left; by exists c|].
    right. split; [|done]. intros c' H. by inversion H. }
  destruct Hcases as [(c & Hr & ->)|[Hr ->]].
  - destruct (run_today l w uid c Hr) as [Ha Hu]. rewrite Ha.
    split_and!; [done|done| |unfold DAILY_LIMIT; lia].
    intros Hk. rewrite Hu, Hk, Hr. cbn. by rewrite Z.add_0_r.
  - destruct (run_not_today l w uid Hr) as [Ha Hu]. rewrite Ha, Z.sub_0_r.
    split_and!; [done| | |unfold DAILY_LIMIT; lia].
    + intros Hk. by rewrite Hu, decide_False, Z.add_0_l.
    + intros Hk. by rewrite Hu, decide_True.
Qed.

Lemma quota_accounting_witness :
  let w := {| users := {[ 7 := (2, "2024-05-01"%string) ]};
              download_queue := []; downloads := [];
              utc_day := "2024-05-01" |} in
  let m7 := Message {| effective_user_id := 7; text := "u" |}
              (Ok "member"%string) in
  let l := [m7; m7; m7] in
  users (after (run l w)) !! 7 = Some (4, "2024-05-01"%string)
  ∧ Z.of_nat (accepted 7 (effects (run l w))) ≤ DAILY_LIMIT.
Proof.
  intros w m7 l.
  destruct (quota_accounting w l 7) as (_ & Hu & _ & Hle). split.
  - rewrite Hu; [reflexivity|discriminate].
  - apply Hle. by vm_compute.
Defined.

(** ** What the table looks like after a run *)

Lemma run_step_rows s w u r :
  users (after (run_step s w)) !! u = Some r →
  users w !! u = Some r
  ∨ (r = (1, utc_day w) ∧ ∀ c, users w !! u ≠ Some (c, utc_day w))
  ∨ (∃ c, users w !! u = Some (c, utc_day w) ∧ c < DAILY_LIMIT
          ∧ r = (c + 1, utc_day w)).
Proof.
  destruct s as [update member|env]; cbn [run_step].
  2: { destruct (cycle_summary w env) as (_ & -> & _). by left. }
  pose proof (handle_cases w update member) as H. cbv zeta in H.
  destruct H as [(_ & Ho)|[(_ & c & _ & _ & Ho)|[(_ & c & Hu & Hc & Ho)
                |[(_ & c & d & Hu & Hd & Ho)|(_ & Hu & Ho)]]]];
    rewrite Ho; cbn [after]; try (by left);
    rewrite charged_users; cbn [users set_users utc_day];
    (destruct (decide (u = effective_user_id update)) as [->|Hne];
     [|rewrite lookup_alter_ne, ?lookup_insert_ne by done; by left]).
  - rewrite lookup_alter_eq, Hu. intros [= <-]. right. right. by exists c.
  - rewrite lookup_alter_eq, Hu. intros [= <-]. right. left.
    split; [done|]. intros c'. intros [= _ Heq]. by apply Hd.
  - rewrite lookup_alter_eq, lookup_insert_eq. intros [= <-]. right. left.
    split; [done|]. intros c'. by rewrite Hu.
Qed.

Lemma run_step_dom s w :
  dom (users (after (run_step s w))) = dom (users w) ∪ senders [s].
Proof.
  unfold senders. destruct s as [update member|env]; cbn [run_step omap list_omap].
  2: { destruct (cycle_summary w env) as (_ & -> & _). cbn.
       by rewrite (right_id_L ∅ (∪)). }
  pose proof (handle_cases w update member) as H. cbv zeta in H.
  destruct H as [(Hs & Ho)|[(Hs & c & Hu & _ & Ho)|[(Hs & c & Hu & _ & Ho)
                |[(Hs & c & d & Hu & _ & Ho)|(Hs & Hu & Ho)]]]];
    rewrite Ho, Hs; cbn [after]; rewrite ?charged_users;
    cbn [users set_users list_to_set]; rewrite ?dom_alter_L, ?dom_insert_L;
    rewrite (right_id_L ∅ (∪)); try done;
    rewrite (comm_L (∪) (dom (users w))); try done.
  all: symmetry; apply subseteq_union_1_L, singleton_subseteq_l.
  all: by apply (elem_of_dom_2 (users w)) in Hu.
Qed.

(** X6.  If every stored count lies between 0 and [DAILY_LIMIT], this
    is still so after any run of messages and worker passes. *)
Theorem counts_stay_bounded (w : world) (l : list step) :
  counts_bounded w → counts_bounded (after (run l w)).
Proof.
  revert w. induction l as [|s l IH]; intros w Hw; [done|].
  rewrite run_cons. cbn [after]. apply IH.
  intros u r Hr. cbn.
  destruct (run_step_rows s w u r Hr) as [Hold|[[-> _]|(c & Hold & Hc & ->)]].
  - by apply (Hw u r).
  - cbn. unfold DAILY_LIMIT. lia.
  - pose proof (Hw u _ Hold) as Hb. cbn in *. lia.
Qed.

Lemma counts_stay_bounded_witness :
  let w := {| users := {[ 7 := (3, "2024-05-01"%string) ]};
              download_queue := []; downloads := [];
              utc_day := "2024-05-01" |} in
  let m7 := Message {| effective_user_id := 7; text := "u" |}
              (Ok "member"%string) in
  counts_bounded (after (run [m7; m7; m7] w)).
Proof.
  intros w m7. apply counts_stay_bounded.
  intros u r Hr. cbn [w users] in Hr.
  apply lookup_singleton_Some in Hr as [_ <-].
  cbn. unfold DAILY_LIMIT. lia.
Defined.

Lemma senders_cons s l : senders (s :: l) = senders [s] ∪ senders l.
Proof.
  unfold senders. cbn [omap list_omap].
  destruct s as [update member|env]; [destruct (is_subscribed member)|];
    cbn [list_to_set];
    by rewrite ?(right_id_L ∅ (∪)), ?(left_id_L ∅ (∪)).
Qed.

(** X7.  Rows are never removed, and a row is created for exactly the
    users whose message passed the subscription gate: after a run the
    table holds the users it held before and those senders.  [stats],
    asked by the admin, replies with their number and changes nothing;
    asked by anybody else it does nothing at all. *)
Theorem stats_counts_senders (ADMIN_ID uid : Z) (w : world) (l : list step) :
  let w' := after (run l w) in
  let o := stats ADMIN_ID uid w' in
  dom (users w') = dom (users w) ∪ senders l
  ∧ after o = w'
  ∧ effects o = []
  ∧ result o = Ok (if bool_decide (uid = ADMIN_ID)
                   then Some (size (dom (users w) ∪ senders l))
                   else None).
Proof.
  intros w' o. subst w' o.
  assert (Hdom : ∀ w, dom (users (after (run l w))) = dom (users w) ∪ senders l).
  { clear w. induction l as [|s l IH]; intros w.
    - cbn. unfold senders. cbn. by rewrite (right_id_L ∅ (∪)).
    - rewrite run_cons. cbn [after].
      by rewrite IH, run_step_dom, (senders_cons s l), (assoc_L (∪)). }
  split; [apply Hdom|].
  unfold stats, is_admin. case_bool_decide; cbn; [|done].
  split_and!; try done. by rewrite <- Hdom, size_dom.
Qed.

(** ** The subscription gate *)

Lemma handle_passes_gate w update member :
  is_subscribed member = true →
  ReplyText MustSubscribe ∉ effects (handle update member w).
Proof.
  intros Hs Hin.
  pose proof (handle_cases w update member) as H. cbv zeta in H.
  destruct H as [(Hn & _)|[(_ & c & _ & _ & Ho)|[(_ & c & _ & _ & Ho)
                |[(_ & c & d & _ & _ & Ho)|(_ & _ & Ho)]]]];
    [congruence|rewrite Ho in Hin; cbn [effects accept_trace] in Hin..];
    repeat (apply elem_of_cons in Hin as [Hin|Hin]; [discriminate Hin|]);
    by apply elem_of_nil in Hin.
Qed.

(** X8.  The [check] callback and [handle] apply the same gate: for
    the same answer of [get_chat_member], [check] shows the verified
    text exactly when [handle] does not answer with the subscription
    message, that is exactly when the answer is one of the statuses
    member, administrator, creator; an exception counts as not
    subscribed.  [check] itself changes nothing. *)
Theorem check_agrees_with_handle (w : world) (update : Update)
    (member : res string) :
  let o := check member w in
  after o = w
  ∧ effects o = []
  ∧ (result o = Ok Verified
     ↔ ReplyText MustSubscribe ∉ effects (handle update member w))
  ∧ (result o = Ok Verified
     ↔ ∃ status, member = Ok status
         ∧ status ∈ ["member"; "administrator"; "creator"]%string).
Proof.
  intros o. subst o. unfold check.
  destruct (is_subscribed member) eqn:Hs; cbn [ret result after effects].
  - split_and!; try done.
    + split; [intros _; by apply handle_passes_gate|done].
    + split; [intros _|done]. destruct member as [status|e]; [|done].
      exists status. split; [done|]. cbn in Hs. by apply bool_decide_eq_true in Hs.
  - split_and!; try done.
    + split; [done|]. intros Hn. exfalso. apply Hn.
      rewrite (handle_not_subscribed w update member Hs). left.
    + split; [done|]. intros (status & -> & Hin). cbn in Hs.
      by apply bool_decide_eq_false in Hs.
Qed.

(** ** The newest file *)

Lemma max_ctime_split (l : list dirent) (best : dirent) :
  let f := max_ctime best l in
  (f = best ∧ ∀ g, g ∈ l → d_ctime g ≤ d_ctime best)
  ∨ (∃ l1 l2, l = l1 ++ f :: l2
       ∧ d_ctime best < d_ctime f
       ∧ (∀ g, g ∈ l1 → d_ctime g < d_ctime f)
       ∧ (∀ g, g ∈ l2 → d_ctime g ≤ d_ctime f)).
Proof.
  revert best. induction l as [|h l IH]; intros best; cbn.
  { left. split; [done|]. intros g Hg. by apply elem_of_nil in Hg. }
  destruct (Z.ltb_spec (d_ctime best) (d_ctime h)) as [Hlt|Hge].
  - right. destruct (IH h) as [[Hf Hall]|(l1 & l2 & Hl & Hb & H1 & H2)].
    + exists [], l. rewrite Hf. split_and!; try done.
      intros g Hg. by apply elem_of_nil in Hg.
    + exists (h :: l1), l2. split_and!; [cbn; by f_equal|lia| |done].
      intros g Hg. apply elem_of_cons in Hg as [->|Hg]; [done|by apply H1].
  - destruct (IH best) as [[Hf Hall]|(l1 & l2 & Hl & Hb & H1 & H2)].
    + left. split; [done|]. intros g Hg.
      apply elem_of_cons in Hg as [->|Hg]; [done|by apply Hall].
    + right. exists (h :: l1), l2. split_and!; [cbn; by f_equal|done| |done].
      intros g Hg. apply elem_of_cons in Hg as [->|Hg]; [lia|by apply H1].
Qed.

(** X9.  [newest] fails with [ValueError] exactly on the empty
    directory.  Otherwise it returns an entry of the directory whose
    ctime no entry exceeds, and among several such entries the first in
    listing order. *)
Theorem newest_first_maximum (l : list dirent) :
  match newest l with
  | Raise e => l = [] ∧ e = ValueError
  | Ok f => ∃ l1 l2, l = l1 ++ f :: l2
              ∧ (∀ g, g ∈ l1 → d_ctime g < d_ctime f)
              ∧ (∀ g, g ∈ l2 → d_ctime g ≤ d_ctime f)
  end.
Proof.
  destruct l as [|h l]; cbn; [done|].
  destruct (max_ctime_split l h) as [[Hf Hall]|(l1 & l2 & Hl & Hb & H1 & H2)].
  - exists [], l. rewrite Hf. split_and!; try done.
    intros g Hg. by apply elem_of_nil in Hg.
  - exists (h :: l1), l2. split_and!; [cbn; by f_equal| |done].
    intros g Hg. apply elem_of_cons in Hg as [->|Hg]; [done|by apply H1].
Qed.

(** ** The loop of the worker *)

(** What a pass does to the queue, whatever else happens in it. *)
Lemma cycle_queue w env :
  let o := downloader_cycle env w in
  popped (effects o) = take 1 (download_queue w)
  ∧ download_queue (after o) = drop 1 (download_queue w).
Proof.
  intros o. subst o.
  destruct (download_queue w) as [|[uid url] q] eqn:Hq.
  { rewrite (cycle_idle w env Hq). cbn. by rewrite Hq. }
  destruct (run_result env) as [rc|e] eqn:Hr.
  2: { by rewrite (cycle_run_raises w env uid url q e Hq Hr). }
  destruct (decide (rc = 0)) as [->|Hrc].
  2: { rewrite (cycle_exit_nonzero w env uid url q rc Hq Hr Hrc).
       by destruct (send_ok env). }
  destruct (run_listing env) as [|f l] eqn:Hl.
  { by rewrite (cycle_exit_zero_empty w env uid url q Hq Hr Hl). }
  rewrite (cycle_exit_zero w env uid url q (max_ctime f l) Hq Hr)
    by (by rewrite Hl).
  by destruct (send_ok env).
Qed.

Lemma passes_cons env envs w :
  passes (env :: envs) w =
    {| result := result (passes envs (after (downloader_cycle env w)));
       after := after (passes envs (after (downloader_cycle env w)));
       effects := effects (downloader_cycle env w)
                  ++ effects (passes envs (after (downloader_cycle env w))) |}.
Proof.
  cbn [passes]. destruct (cycle_summary w env) as (Hok & _).
  destruct (downloader_cycle env w) as [r w1 tr1] eqn:Hs. cbn in Hok. subst r.
  by rewrite (bind_ok _ _ _ _ _ _ Hs).
Qed.

Lemma passes_summary envs w :
  let o := passes envs w in
  result o = Ok tt
  ∧ popped (effects o) = take (length envs) (download_queue w)
  ∧ download_queue (after o) = drop (length envs) (download_queue w)
  ∧ appended (effects o) = []
  ∧ users (after o) = users w.
Proof.
  revert w. induction envs as [|env envs IH]; intros w; cbn zeta.
  { cbn. by rewrite drop_0. }
  rewrite passes_cons. cbn [result after effects length].
  destruct (IH (after (downloader_cycle env w))) as (Hok & Hp & Hq & Ha & Hu).
  destruct (cycle_summary w env) as (_ & Hu1 & _ & Ha1 & _).
  destruct (cycle_queue w env) as [Hp1 Hq1].
  rewrite popped_app, appended_app, Hp, Hq, Ha, Hu, Hp1, Hq1, Ha1, Hu1.
  split_and!; try done;
    destruct (download_queue w); cbn; by rewrite ?take_nil, ?drop_nil.
Qed.

(** X10.  Started with the flag clear, the loop keeps going whatever
    the fetches and sends do: after any number [n] of passes no
    exception has left it, the first [n] jobs of the queue have been
    taken, in order, one per pass, none has been put back, and the
    table is untouched.  Started with the flag set, [downloader_loop]
    returns at once and does nothing. *)
Theorem downloader_loop_drains (w : world) (envs : list cycle_env) :
  let o := downloader_loop false envs w in
  let n := length envs in
  result o = Ok true
  ∧ popped (effects o) = take n (download_queue w)
  ∧ download_queue (after o) = drop n (download_queue w)
  ∧ appended (effects o) = []
  ∧ users (after o) = users w
  ∧ downloader_loop true envs w
    = {| result := Ok true; after := w; effects := [] |}.
Proof.
  intros o n. subst o n. unfold downloader_loop.
  destruct (passes_summary envs w) as (Hok & Hp & Hq & Ha & Hu).
  destruct (passes envs w) as [r w1 tr1] eqn:Hs. cbn in Hok. subst r.
  rewrite (bind_ok _ _ _ _ _ _ Hs). cbn [ret result after effects] in *.
  by rewrite app_nil_r.
Qed.

(** ** What the worker sends and deletes *)

Lemma os_path_join_inj (n1 n2 : string) :
  os_path_join DOWNLOAD_DIR n1 = os_path_join DOWNLOAD_DIR n2 → n1 = n2.
Proof.
  unfold os_path_join, DOWNLOAD_DIR. intros H. cbn in H. by simplify_eq.
Qed.

(** X11.  A pass deletes nothing it has not sent: when a file that
    was in the directory after the fetch is gone after the pass, the
    fetch had exited with code zero, the file has the name of the
    newest entry, and the pass ended with the send of that file to the
    owner of the job followed by its removal. *)
Theorem worker_deletes_only_sent (w : world) (env : cycle_env) (uid : Z)
    (url : string) (q : list job) (g : dirent) :
  download_queue w = (uid, url) :: q →
  g ∈ run_listing env →
  let o := downloader_cycle env w in
  g ∉ downloads (after o) →
  run_result env = Ok 0
  ∧ send_ok env = true
  ∧ (∃ f, newest (run_listing env) = Ok f ∧ d_name f = d_name g)
  ∧ effects o = [Acquire; Popleft (uid, url); Release;
                 Run (cmd uid (time_time env) url);
                 SendVideo uid (os_path_join DOWNLOAD_DIR (d_name g));
                 Remove (os_path_join DOWNLOAD_DIR (d_name g))].
Proof.
  intros Hq Hg o. subst o.
  destruct (run_result env) as [rc|e] eqn:Hr.
  2: { rewrite (cycle_run_raises w env uid url q e Hq Hr). by cbn. }
  destruct (decide (rc = 0)) as [->|Hrc].
  2: { rewrite (cycle_exit_nonzero w env uid url q rc Hq Hr Hrc). by cbn. }
  destruct (newest (run_listing env)) as [f|e] eqn:Hf.
  2: { destruct (run_listing env); [by apply elem_of_nil in Hg|done]. }
  rewrite (cycle_exit_zero w env uid url q f Hq Hr Hf).
  destruct (send_ok env); [|by cbn]. cbn [after effects downloads set_downloads fetched].
  intros Hgone. unfold os_remove in Hgone. rewrite list_elem_of_filter in Hgone.
  assert (d_name f = d_name g) as Hname.
  { destruct (decide (d_name f = d_name g)) as [|Hne]; [done|].
    exfalso. apply Hgone. split; [|done]. intros Heq.
    apply os_path_join_inj in Heq. by apply Hne. }
  split_and!; try done; [by exists f|]. by rewrite Hname.
Qed.

Lemma worker_deletes_only_sent_witness :
  let f := {| d_name := "7_1700000000.mp4"; d_ctime := 9 |} in
  let w := {| users := ∅; download_queue := [(7, "u"%string)];
              downloads := []; utc_day := "2024-05-01" |} in
  let env := {| time_time := 1700000000; run_result := Ok 0;
                run_listing := [f]; send_ok := true |} in
  last (effects (downloader_cycle env w))
  = Some (Remove "downloads/7_1700000000.mp4").
Proof.
  intros f w env.
  destruct (worker_deletes_only_sent w env 7 "u" [] f eq_refl)
    as (_ & _ & _ & ->).
  - left.
  - vm_compute. apply not_elem_of_nil.
  - reflexivity.
Defined.

(** X12.  A file left behind by a send that failed goes to the next
    user: when the send of the first job's file raises, and the fetch
    for the second job exits with code zero without adding anything to
    the directory, the second pass sends the first job's file to the
    owner of the second job and removes it. *)
Theorem leftover_goes_to_next_user (w : world) (env1 env2 : cycle_env)
    (u1 u2 : Z) (url1 url2 : string) (q : list job) (f : dirent) :
  download_queue w = (u1, url1) :: (u2, url2) :: q →
  run_result env1 = Ok 0 →
  newest (run_listing env1) = Ok f →
  send_ok env1 = false →
  run_result env2 = Ok 0 →
  run_listing env2 = run_listing env1 →
  send_ok env2 = true →
  let o := run [Worker env1; Worker env2] w in
  let path := os_path_join DOWNLOAD_DIR (d_name f) in
  effects o =
    [Acquire; Popleft (u1, url1); Release; Run (cmd u1 (time_time env1) url1);
     SendVideo u1 path; LogError TelegramError; Sleep 5;
     Acquire; Popleft (u2, url2); Release; Run (cmd u2 (time_time env2) url2);
     SendVideo u2 path; Remove path]
  ∧ download_queue (after o) = q
  ∧ f ∉ downloads (after o).
Proof.
  intros Hq Hr1 Hf1 Hs1 Hr2 Hl2 Hs2 o path. subst o.
  rewrite run_cons. cbn [run_step].
  pose proof (cycle_exit_zero w env1 u1 url1 _ f Hq Hr1 Hf1) as H1.
  cbv zeta in H1. rewrite Hs1 in H1. rewrite H1. cbn [after effects].
  rewrite run_cons. cbn [run_step run ret result after effects].
  rewrite <- Hl2 in Hf1.
  pose proof (cycle_exit_zero (fetched ((u2, url2) :: q) env1 w) env2
                u2 url2 q f eq_refl Hr2 Hf1) as H2.
  cbv zeta in H2. rewrite Hs2 in H2. rewrite H2. cbn [after effects].
  split_and!; [by rewrite app_nil_r|done|].
  cbn [downloads set_downloads fetched]. apply os_remove_gone.
Qed.

Lemma leftover_goes_to_next_user_witness :
  let f := {| d_name := "7_1700000000.mp4"; d_ctime := 9 |} in
  let w := {| users := ∅;
              download_queue := [(7, "u"%string); (8, "v"%string)];
              downloads := []; utc_day := "2024-05-01" |} in
  let env1 := {| time_time := 1700000000; run_result := Ok 0;
                 run_listing := [f]; send_ok := false |} in
  let env2 := {| time_time := 1700000100; run_result := Ok 0;
                 run_listing := [f]; send_ok := true |} in
  SendVideo 8 "downloads/7_1700000000.mp4"
    ∈ effects (run [Worker env1; Worker env2] w).
Proof.
  intros f w env1 env2.
  destruct (leftover_goes_to_next_user w env1 env2 7 8 "u" "v" [] f
              eq_refl eq_refl eq_refl eq_refl eq_refl eq_refl eq_refl)
    as (-> & _).
  do 11 apply list_elem_of_further. apply list_elem_of_here.
Defined.

(** X13.  When [subprocess.run] raises (the timeout, or a process
    that cannot be started), or when it exits with code zero and the
    directory is empty, the job is gone from the queue and the notifier
    is not called at all: the pass only logs the error and sleeps. *)
Theorem silent_drop (w : world) (env : cycle_env) (uid : Z) (url : string)
    (q : list job) :
  download_queue w = (uid, url) :: q →
  (∃ e, run_result env = Raise e)
    ∨ (run_result env = Ok 0 ∧ run_listing env = []) →
  let o := downloader_cycle env w in
  result o = Ok tt
  ∧ download_queue (after o) = q
  ∧ filter is_send (effects o) = []
  ∧ ∃ e, effects o = [Acquire; Popleft (uid, url); Release;
                      Run (cmd uid (time_time env) url);
                      LogError e; Sleep 5]
         ∧ (run_result env = Raise e
            ∨ (run_result env = Ok 0 ∧ e = ValueError)).
Proof.
  intros Hq [[e Hr]|[Hr Hl]] o; subst o.
  - rewrite (cycle_run_raises w env uid url q e Hq Hr).
    cbn [result after effects]. split_and!; try done.
    exists e. split; [done|by left].
  - rewrite (cycle_exit_zero_empty w env uid url q Hq Hr Hl).
    cbn [result after effects]. split_and!; try done.
    exists ValueError. split; [done|by right].
Qed.

Lemma silent_drop_witness :
  let w := {| users := ∅;
              download_queue := [(7, "u"%string); (8, "v"%string)];
              downloads := []; utc_day := "2024-05-01" |} in
  let env r := {| time_time := 1700000000; run_result := r;
                  run_listing := []; send_ok := true |} in
  filter is_send (effects (downloader_cycle (env (Raise TimeoutExpired)) w)) = []
  ∧ filter is_send (effects (downloader_cycle (env (Ok 0)) w)) = [].
Proof.
  intros w env. split.
  - apply (silent_drop w (env (Raise TimeoutExpired)) 7 "u" [(8, "v"%string)]
             eq_refl).
    left. by exists TimeoutExpired.
  - apply (silent_drop w (env (Ok 0)) 7 "u" [(8, "v"%string)] eq_refl).
    by right.
Defined.

(** ** No job is lost *)

Lemma run_queue_balance l w :
  let o := run l w in
  download_queue w ++ appended (effects o)
  = popped (effects o) ++ download_queue (after o).
Proof.
  revert w. induction l as [|s l IH]; intros w; cbn zeta.
  { cbn. by rewrite app_nil_r. }
  rewrite run_cons. cbn [after effects].
  rewrite appended_app, popped_app, <- (assoc_L (++)), <- IH.
  rewrite !(assoc_L (++)). f_equal.
  destruct s as [update member|env]; cbn [run_step].
  - by destruct (handle_summary w update member) as (_ & _ & _ & -> & -> & _).
  - destruct (cycle_summary w env) as (_ & _ & _ & -> & Hw).
    by rewrite app_nil_r.
Qed.

(** X14.  Every job that was queued or accepted is taken by the worker
    exactly once, in order: after any run, as many further passes as
    there are jobs waiting (or more) leave the queue empty, and the
    jobs taken over the run and those passes are the jobs of the
    initial queue followed by the accepted ones. *)
Theorem every_job_taken_once (w : world) (l : list step)
    (envs : list cycle_env) :
  let o1 := run l w in
  (length (download_queue (after o1)) ≤ length envs)%nat →
  let o2 := passes envs (after o1) in
  result o2 = Ok tt
  ∧ download_queue (after o2) = []
  ∧ popped (effects o1) ++ popped (effects o2)
    = download_queue w ++ appended (effects o1).
Proof.
  intros o1 Hlen o2. subst o1 o2.
  destruct (passes_summary envs (after (run l w))) as (Hok & Hp & Hq & _).
  rewrite Hp, Hq, take_ge, drop_ge by done.
  split_and!; try done. symmetry. apply run_queue_balance.
Qed.

Lemma every_job_taken_once_witness :
  let w := {| users := ∅; download_queue := [(1, "a"%string)];
              downloads := []; utc_day := "2024-05-01" |} in
  let m7 := Message {| effective_user_id := 7; text := "u" |}
              (Ok "member"%string) in
  let env := {| time_time := 0; run_result := Ok 1;
                run_listing := []; send_ok := false |} in
  download_queue (after (passes [env; env; env] (after (run [m7] w)))) = [].
Proof.
  intros w m7 env.
  apply (every_job_taken_once w [m7] [env; env; env]).
  vm_compute. lia.
Defined.
